(** * flask_api_system: credential store, token gate and operation ledger

    A shallow embedding of [flask_api_system.py].  The SQLite file behind
    [DatabaseService] is an explicit [database] value threaded through the
    calls, the wall clock and the salt drawn by the password hasher are
    explicit arguments, and the two third-party libraries the program calls
    (werkzeug's password hashing and PyJWT) are interfaces with the part of
    their documented contract the program relies on. *)

From Stdlib Require Import ZArith String Ascii List Lia Permutation Sorted.
From Stdlib Require Import DecimalString.
From stdpp Require Import base option list strings countable gmap sorting.

Local Open Scope string_scope.
Local Open Scope Z_scope.

(** ** Python values and exceptions *)

(** The scalar values that travel through JSON bodies and token payloads. *)
Inductive pyval :=
  | PNone
  | PStr (s : string)
  | PInt (z : Z).

#[global] Instance pyval_eq_dec : EqDecision pyval.
Proof. solve_decision. Defined.

#[global] Instance pyval_countable : Countable pyval.
Proof.
  refine (inj_countable'
    (fun v => match v with
              | PNone => inl tt
              | PStr s => inr (inl s)
              | PInt z => inr (inr z)
              end)
    (fun x => match x with
              | inl _ => PNone
              | inr (inl s) => PStr s
              | inr (inr z) => PInt z
              end) _).
  intros []; reflexivity.
Defined.

(** The exceptions that can cross a function boundary in this program. *)
Inductive exn :=
  | IntegrityError (constraint : string)
  | OverflowError
  | KeyError (key : string)
  | AttributeError
  | UnicodeEncodeError (reason : string).

(** [str(e)] as the route handlers print it. *)
Definition str_exn (e : exn) : string :=
  match e with
  | IntegrityError c => c
  | OverflowError => "Python int too large to convert to SQLite INTEGER"
  | KeyError k => "'" +:+ k +:+ "'"
  | AttributeError => "'NoneType' object has no attribute 'encode'"
  | UnicodeEncodeError reason => reason
  end.

Inductive result (A : Type) :=
  | Return (a : A)
  | Raise (e : exn).
Arguments Return {A} a.
Arguments Raise {A} e.

Definition bind {A B} (r : result A) (k : A -> result B) : result B :=
  match r with
  | Return a => k a
  | Raise e => Raise e
  end.

Notation "'try!' x <- r 'in' k" := (bind r (fun x => k))
  (at level 10, x name, r at level 100, k at level 200).

(** Truthiness of an optional string: [None] and [''] are falsy. *)
Definition truthy (v : option string) : bool :=
  match v with
  | Some s => negb (String.eqb s "")
  | None => false
  end.

(** [token[n:]] *)
Fixpoint string_drop (n : nat) (s : string) : string :=
  match n, s with
  | O, _ => s
  | S n', String _ r => string_drop n' r
  | S _, EmptyString => EmptyString
  end.

(** Remove the ['Bearer '] prefix if present. *)
Definition strip_bearer (token : string) : string :=
  if String.prefix "Bearer " token then string_drop 7 token else token.

(** ** The SQLite store *)

(** A row of [users]; [id], [username], [email] and [password_hash] are
    NOT NULL, [role] is nullable. *)
Record user_row := {
  u_id : Z;
  u_username : string;
  u_email : string;
  u_password_hash : string;
  u_role : option string;
  u_created_at : Z
}.

(** A row of [api_operations]. *)
Record operation_row := {
  op_id : Z;
  op_user_id : Z;
  op_operation_type : string;
  op_data : string;
  op_status : string;
  op_created_at : Z
}.

(** The database file: both tables in rowid order, and the AUTOINCREMENT
    counters SQLite keeps in [sqlite_sequence]. *)
Record database := {
  users : list user_row;
  users_seq : Z;
  api_operations : list operation_row;
  api_operations_seq : Z
}.

(** [init_database] on a fresh file. *)
Definition init_database : database :=
  {| users := []; users_seq := 0; api_operations := []; api_operations_seq := 0 |}.

(** The sqlite3 module converts a Python [int] parameter to a 64-bit
    SQLite INTEGER and raises [OverflowError] when it does not fit. *)
Definition is_int64 (z : Z) : bool := (- 2 ^ 63 <=? z) && (z <? 2 ^ 63).

Definition bind_int (z : Z) : result Z :=
  if is_int64 z then Return z else Raise OverflowError.

(** A bound parameter compared with a TEXT column: NULL matches nothing,
    text is compared bytewise, an integer is first rendered as text. *)
Definition text_of_int (z : Z) : string := NilZero.string_of_int (Z.to_int z).

Definition bind_text_key (v : pyval) : result (option string) :=
  match v with
  | PNone => Return None
  | PStr s => Return (Some s)
  | PInt z => try! z' <- bind_int z in Return (Some (text_of_int z'))
  end.

Definition username_is (name : string) (r : user_row) : bool :=
  String.eqb (u_username r) name.

Definition email_is (addr : string) (r : user_row) : bool :=
  String.eqb (u_email r) addr.

(** The row a successful insert appends: the next AUTOINCREMENT id, the
    column default for [created_at]. *)
Definition new_user_row (db : database) (now : Z) (name addr pwhash : string)
    (role : option string) : user_row :=
  {| u_id := users_seq db + 1; u_username := name; u_email := addr;
     u_password_hash := pwhash; u_role := role; u_created_at := now |}.

(** [INSERT INTO users (username, email, password_hash, role) VALUES (?,?,?,?)]:
    the statement checks the NOT NULL and UNIQUE constraints itself and
    either fails with [IntegrityError], leaving the file untouched, or
    appends the row under the next AUTOINCREMENT id. *)
Definition insert_user (db : database) (now : Z)
    (username email : option string) (password_hash : string)
    (role : option string) : exn + (database * Z) :=
  match username, email with
  | None, _ => inl (IntegrityError "NOT NULL constraint failed: users.username")
  | Some _, None => inl (IntegrityError "NOT NULL constraint failed: users.email")
  | Some name, Some addr =>
      if existsb (username_is name) (users db) then
        inl (IntegrityError "UNIQUE constraint failed: users.username")
      else if existsb (email_is addr) (users db) then
        inl (IntegrityError "UNIQUE constraint failed: users.email")
      else
        let row := new_user_row db now name addr password_hash role in
        inr ({| users := users db ++ [row]; users_seq := u_id row;
                api_operations := api_operations db;
                api_operations_seq := api_operations_seq db |}, u_id row)
  end.

(** [INSERT INTO api_operations (user_id, operation_type, data) VALUES (?,?,?)]:
    [status] and [created_at] take their column defaults. *)
Definition insert_operation (db : database) (now : Z)
    (user_id : Z) (operation_type data : string) : database * Z :=
  let rowid := api_operations_seq db + 1 in
  let row := {| op_id := rowid; op_user_id := user_id;
                op_operation_type := operation_type; op_data := data;
                op_status := "pending"; op_created_at := now |} in
  ({| users := users db; users_seq := users_seq db;
      api_operations := api_operations db ++ [row];
      api_operations_seq := rowid |}, rowid).

(** [ORDER BY created_at DESC]: SQLite feeds the rows to its sorter in scan
    (rowid) order, the key being [created_at] followed by the arrival
    number, so a row settles behind every row that is at least as new. *)
Fixpoint sorter_insert (r : operation_row) (sorted : list operation_row)
    : list operation_row :=
  match sorted with
  | [] => [r]
  | h :: t =>
      if op_created_at h <? op_created_at r then r :: sorted
      else h :: sorter_insert r t
  end.

Definition order_by_created_at_desc (rows : list operation_row)
    : list operation_row :=
  fold_left (fun sorted r => sorter_insert r sorted) rows [].

(** [LIMIT ?]: a negative value means no upper bound. *)
Definition sql_limit {A} (n : Z) (rows : list A) : list A :=
  if n <? 0 then rows else firstn (Z.to_nat n) rows.

Definition owned_by (user_id : Z) (op : operation_row) : bool :=
  op_user_id op =? user_id.

(** [SELECT * FROM api_operations WHERE user_id = ? ORDER BY created_at DESC LIMIT ?] *)
Definition select_operations (db : database) (user_id limit : Z)
    : list operation_row :=
  sql_limit limit
    (order_by_created_at_desc (List.filter (owned_by user_id) (api_operations db))).

(** ** JSON bodies *)

#[local] Set Warnings "-register-all".

Inductive json :=
  | JNull
  | JStr (s : string)
  | JInt (z : Z)
  | JList (items : list json)
  | JObj (fields : list (string * json)).

(** A Flask view returns [jsonify(body), status]. *)
Definition response : Type := json * Z.

Definition message (m : string) : json := JObj [("message", JStr m)].

Definition json_of_text (v : option string) : json :=
  match v with
  | Some s => JStr s
  | None => JNull
  end.

(** The three rejections of the token gate. *)
Definition missing_response : response := (message "Token is missing", 401).
Definition expired_response : response := (message "Token has expired", 401).
Definition invalid_response : response := (message "Token is invalid", 401).

(** A request body: a JSON object whose values are strings or [null]. *)
Definition get (data : gmap string (option string)) (key : string) : option string :=
  default None (data !! key).

Definition has_key (data : gmap string (option string)) (key : string) : bool :=
  bool_decide (is_Some (data !! key)).

(** ** The libraries the program calls *)

(** [werkzeug.security].  [generate_password_hash] draws a random salt; here
    the salt is its first argument.  [check_password_hash pwhash password] is
    [true] when the call returns [True]; when it does not, the call either
    returned [False] or raised, and [check_password_hash_raises] tells which
    (a password that cannot be encoded raises [UnicodeEncodeError]). *)
Class Werkzeug := {
  generate_password_hash : string -> string -> string;
  check_password_hash : string -> string -> bool;
  check_password_hash_raises : string -> string -> option exn
}.

(** What the program relies on: a hash checks against the password it was
    made from and is not the password itself.  Nothing is assumed about
    other candidates: the hashers key an HMAC with the password, which pads
    a short key with zero bytes, so a password and the same password
    followed by NUL characters have the same hash. *)
Class WerkzeugLaws (W : Werkzeug) : Prop := {
  check_generated : forall salt pw,
    check_password_hash (generate_password_hash salt pw) pw = true;
  hash_not_plain : forall salt pw, generate_password_hash salt pw <> pw
}.

(** The three ways [jwt.decode] can end: [InvalidTokenError] stands for
    itself and all its subclasses other than [ExpiredSignatureError]. *)
Inductive jwt_result :=
  | Decoded (payload : gmap string pyval)
  | ExpiredSignatureError
  | InvalidTokenError.

(** [jwt.encode(payload, key, algorithm='HS256')] and
    [jwt.decode(token, key, algorithms=['HS256'])] read at clock [now], with
    the default leeway of zero.  [jws_payload token key] is the payload
    carried by [token] when it is a well-formed token whose HS256 signature
    verifies under [key]; the program never calls it, the contract below is
    phrased with it. *)
Class PyJWT := {
  jwt_encode : gmap string pyval -> string -> string;
  jwt_decode : string -> string -> Z -> jwt_result;
  jws_payload : string -> string -> option (gmap string pyval)
}.

(** The registered claims, besides [exp], that [jwt.decode] validates. *)
Definition other_registered_claims : list string :=
  ["iss"; "sub"; "aud"; "nbf"; "iat"; "jti"].

Definition only_exp (payload : gmap string pyval) : Prop :=
  Forall (fun c => payload !! c = None) other_registered_claims.

(** What the program relies on: an encoded payload is carried by its token;
    a token that carries nothing under the key is invalid; one that carries
    a payload with an integer [exp] and no other registered claim is expired
    after [exp] and decodes to its payload before. *)
Class PyJWTLaws (J : PyJWT) : Prop := {
  jws_encode : forall payload key,
    jws_payload (jwt_encode payload key) key = Some payload;
  decode_bad_signature : forall token key now,
    jws_payload token key = None ->
    jwt_decode token key now = InvalidTokenError;
  decode_expired : forall token key now payload e,
    jws_payload token key = Some payload -> only_exp payload ->
    payload !! "exp" = Some (PInt e) -> e < now ->
    jwt_decode token key now = ExpiredSignatureError;
  decode_live : forall token key now payload e,
    jws_payload token key = Some payload -> only_exp payload ->
    payload !! "exp" = Some (PInt e) -> now < e ->
    jwt_decode token key now = Decoded payload
}.

(** [app.config['SECRET_KEY'] = os.getenv('SECRET_KEY', 'dev-secret-key-change-me')] *)
Definition secret_key_of_env (env : option string) : string :=
  default "dev-secret-key-change-me" env.

Section Program.

Context {W : Werkzeug} {J : PyJWT}.
Variable json_dumps : json -> string.
Variable SECRET_KEY : string.

(** ** DatabaseService *)

(** [create_user]: hash, insert, and turn [sqlite3.IntegrityError] into
    [None]; any other exception leaves through the [finally]. *)
Definition create_user (db : database) (salt : string) (now : Z)
    (username email password role : option string)
    : database * result (option Z) :=
  match password with
  | None => (db, Raise AttributeError)
  | Some pw =>
      let password_hash := generate_password_hash salt pw in
      match insert_user db now username email password_hash role with
      | inr (db', user_id) => (db', Return (Some user_id))
      | inl (IntegrityError _) => (db, Return None)
      | inl e => (db, Raise e)
      end
  end.

(** [get_user_by_username]: [SELECT * FROM users WHERE username = ?], first row. *)
Definition get_user_by_username (db : database) (username : pyval)
    : result (option user_row) :=
  try! key <- bind_text_key username in
  Return (match key with
          | Some name => List.find (username_is name) (users db)
          | None => None
          end).

(** [create_operation] *)
Definition create_operation (db : database) (now : Z) (user_id : Z)
    (operation_type : string) (data : json) : database * result Z :=
  match bind_int user_id with
  | Raise e => (db, Raise e)
  | Return uid =>
      let (db', operation_id) :=
        insert_operation db now uid operation_type (json_dumps data) in
      (db', Return operation_id)
  end.

(** [get_user_operations(user_id, limit=10)]; [None] is the omitted argument. *)
Definition get_user_operations (db : database) (user_id : Z) (limit : option Z)
    : result (list operation_row) :=
  let limit := default 10 limit in
  try! uid <- bind_int user_id in
  try! lim <- bind_int limit in
  Return (select_operations db uid lim).

(** ** The routes *)

(** [token_required(f)], applied to the raw [Authorization] header. *)
Definition token_required (f : user_row -> response) (db : database) (now : Z)
    (header : option string) : result response :=
  if negb (truthy header) then Return missing_response
  else
    let token := strip_bearer (default "" header) in
    match jwt_decode token SECRET_KEY now with
    | ExpiredSignatureError => Return expired_response
    | InvalidTokenError => Return invalid_response
    | Decoded data =>
        match data !! "username" with
        | None => Raise (KeyError "username")
        | Some name =>
            try! current_user <- get_user_by_username db name in
            match current_user with
            | None => Return invalid_response
            | Some current_user => Return (f current_user)
            end
        end
    end.

(** [POST /api/register] *)
Definition register (db : database) (salt : string) (now : Z)
    (data : gmap string (option string)) : database * response :=
  if negb (forallb (has_key data) ["username"; "email"; "password"]) then
    (db, (message "Missing required fields", 400))
  else
    match create_user db salt now (get data "username") (get data "email")
            (get data "password") (default (Some "user") (data !! "role")) with
    | (db', Return (Some user_id)) =>
        if user_id =? 0 then
          (db', (message "Username or email already exists", 409))
        else
          (db', (JObj [("message", JStr "User created successfully");
                       ("user_id", JInt user_id)], 201))
    | (db', Return None) =>
        (db', (message "Username or email already exists", 409))
    | (db', Raise e) =>
        (db', (message ("Registration failed: " +:+ str_exn e), 500))
    end.

(** The payload [login] signs. *)
Definition token_claims (user : user_row) (now : Z) : gmap string pyval :=
  <["username" := PStr (u_username user)]>
  (<["user_id" := PInt (u_id user)]>
  (<["role" := match u_role user with Some r => PStr r | None => PNone end]>
  (<["exp" := PInt (now + 24 * 3600)]> ∅))).

(** [POST /api/login] *)
Definition login (db : database) (now : Z)
    (data : gmap string (option string)) : response :=
  if negb (truthy (get data "username")) || negb (truthy (get data "password")) then
    (message "Username and password required", 400)
  else
    let username := default "" (get data "username") in
    let password := default "" (get data "password") in
    match get_user_by_username db (PStr username) with
    | Raise e => (message ("Login failed: " +:+ str_exn e), 500)
    | Return (Some user) =>
        if check_password_hash (u_password_hash user) password then
          let token := jwt_encode (token_claims user now) SECRET_KEY in
          (JObj [("message", JStr "Login successful");
                 ("token", JStr token);
                 ("user", JObj [("id", JInt (u_id user));
                                ("username", JStr (u_username user));
                                ("email", JStr (u_email user));
                                ("role", json_of_text (u_role user))])], 200)
        else
          match check_password_hash_raises (u_password_hash user) password with
          | Some e => (message ("Login failed: " +:+ str_exn e), 500)
          | None => (message "Invalid credentials", 401)
          end
    | Return None => (message "Invalid credentials", 401)
    end.

Definition json_of_operation (op : operation_row) : json :=
  JObj [("id", JInt (op_id op)); ("user_id", JInt (op_user_id op));
        ("operation_type", JStr (op_operation_type op));
        ("data", JStr (op_data op)); ("status", JStr (op_status op));
        ("created_at", JInt (op_created_at op))].

(** [GET /api/operations]; [limit_arg] is the [limit] query argument after
    [type=int]: [None] when absent or not an integer literal. *)
Definition get_operations (db : database) (limit_arg : option Z)
    (current_user : user_row) : response :=
  let limit := default 10 limit_arg in
  match get_user_operations db (u_id current_user) (Some limit) with
  | Return operations =>
      (JObj [("operations", JList (map json_of_operation operations));
             ("count", JInt (Z.of_nat (length operations)))], 200)
  | Raise e =>
      (message ("Failed to retrieve operations: " +:+ str_exn e), 500)
  end.

End Program.

(** ** Store invariant *)

(** What the UNIQUE constraints and the AUTOINCREMENT counter maintain. *)
Definition store_ok (db : database) : Prop :=
  List.NoDup (map u_username (users db)) /\
  List.NoDup (map u_email (users db)) /\
  0 <= users_seq db.

(** The rows of [user_id] in the ledger, in insertion order. *)
Definition operations_of (db : database) (user_id : Z) : list operation_row :=
  List.filter (owned_by user_id) (api_operations db).

(** [a] comes before [b] in a newest-first listing that breaks ties by id,
    the later insert first. *)
Definition newer_then_later (a b : operation_row) : Prop :=
  op_created_at b < op_created_at a \/
  (op_created_at b = op_created_at a /\ op_id b < op_id a).

(** [a] is not older than [b]. *)
Definition not_older (a b : operation_row) : Prop :=
  op_created_at b <= op_created_at a.

(** [candidate] is [pw] with exactly one character replaced. *)
Definition one_char_off (pw candidate : string) : Prop :=
  exists (before after : string) (a b : ascii),
    a <> b /\
    pw = before +:+ String a after /\
    candidate = before +:+ String b after.

(** ** Reference instances of the library interfaces

    Small executable stand-ins, with no cryptographic strength, that meet
    the contracts above; the concrete runs below use them. *)

Definition nul : ascii := "000"%char.

(** A password without its trailing NUL characters. *)
Fixpoint rstrip_nul (s : string) : string :=
  match s with
  | EmptyString => EmptyString
  | String c r =>
      match rstrip_nul r with
      | EmptyString => if Ascii.eqb c nul then EmptyString else String c EmptyString
      | r' => String c r'
      end
  end.

(** The HMAC key a password makes, up to the zero padding: a key of at most
    one 64-byte block is padded with zero bytes, so its trailing NULs do not
    count. *)
Definition hmac_key (pw : string) : string :=
  if (String.length pw <=? 64)%nat then rstrip_nul pw else pw.

(** The occurrences of [$] in a string. *)
Fixpoint dollars (s : string) : nat :=
  match s with
  | EmptyString => O
  | String c r => ((if Ascii.eqb c "$" then 1 else 0) + dollars r)%nat
  end.

(** U+D800 alone, a JSON string [str.encode] refuses, as its three bytes. *)
Definition lone_surrogate : string :=
  String "237" (String "160" (String "128" EmptyString)).

Definition ref_werkzeug : Werkzeug := {|
  generate_password_hash := fun _ pw => String "$" (hmac_key pw);
  check_password_hash := fun pwhash pw =>
    String.eqb pwhash (String "$" (hmac_key pw));
  check_password_hash_raises := fun _ pw =>
    if String.eqb pw lone_surrogate
    then Some (UnicodeEncodeError "surrogates not allowed")
    else None
|}.

Fixpoint bits_of_pos (p : positive) : string :=
  match p with
  | xH => ""
  | xO q => String "0" (bits_of_pos q)
  | xI q => String "1" (bits_of_pos q)
  end.

Fixpoint pos_of_bits (s : string) : option positive :=
  match s with
  | "" => Some xH
  | String c r =>
      if Ascii.eqb c "0" then xO <$> pos_of_bits r
      else if Ascii.eqb c "1" then xI <$> pos_of_bits r
      else None
  end.

Fixpoint strip_prefix (p s : string) : option string :=
  match p, s with
  | "", _ => Some s
  | String a p', String b s' => if Ascii.eqb a b then strip_prefix p' s' else None
  | String _ _, "" => None
  end.

Fixpoint split_last (s : string) : option (string * ascii) :=
  match s with
  | EmptyString => None
  | String c r =>
      match split_last r with
      | Some (r', l) => Some (String c r', l)
      | None => Some (EmptyString, c)
      end
  end.

(** A token is the key, a dot, the payload written in binary, and a last
    character [A].  The last character of a base64url-encoded HS256
    signature carries two bits the decoder does not read, so four
    characters stand for the same signature; here [B] reads as [A]. *)
Definition ref_jws_payload (token key : string) : option (gmap string pyval) :=
  match strip_prefix (key +:+ ".") token with
  | Some body =>
      match split_last body with
      | Some (bits, l) =>
          if Ascii.eqb l "A" || Ascii.eqb l "B" then
            match pos_of_bits bits with
            | Some p => decode p
            | None => None
            end
          else None
      | None => None
      end
  | None => None
  end.

(** The [exp] check, at leeway zero. *)
Definition ref_validate_exp (payload : gmap string pyval) (now : Z) : jwt_result :=
  match payload !! "exp" with
  | Some (PInt e) => if e <=? now then ExpiredSignatureError else Decoded payload
  | Some _ => InvalidTokenError
  | None => Decoded payload
  end.

(** The claims are validated in PyJWT's order: [nbf] before [exp]. *)
Definition ref_validate_claims (payload : gmap string pyval) (now : Z) : jwt_result :=
  match payload !! "nbf" with
  | Some (PInt n) => if now <? n then InvalidTokenError else ref_validate_exp payload now
  | Some _ => InvalidTokenError
  | None => ref_validate_exp payload now
  end.

Definition ref_jwt : PyJWT := {|
  jwt_encode := fun payload key =>
    key +:+ "." +:+ bits_of_pos (encode payload) +:+ "A";
  jws_payload := ref_jws_payload;
  jwt_decode := fun token key now =>
    match ref_jws_payload token key with
    | None => InvalidTokenError
    | Some payload => ref_validate_claims payload now
    end
|}.


(** [json.dumps] stand-in for the concrete runs: every payload prints as [{}]. *)
Definition ref_json_dumps (_ : json) : string := "{}".

(** The store after [alice] registered with password [pw12345] at clock 100. *)
Definition alice_row : user_row :=
  {| u_id := 1; u_username := "alice"; u_email := "alice@x.com";
     u_password_hash := "$pw12345"; u_role := Some "user"; u_created_at := 100 |}.

Definition alice_db : database :=
  {| users := [alice_row]; users_seq := 1;
     api_operations := []; api_operations_seq := 0 |}.

(** [a] is strictly newer than [b]. *)
Definition newer (a b : operation_row) : Prop :=
  op_created_at b < op_created_at a.

(** Five operations recorded for user 1 by [create_operation], one per call. *)
Definition record_ping (now : Z) (db : database) : database :=
  fst (create_operation ref_json_dumps db now 1 "ping" (JObj [])).

(** ... all within the same second, *)
Definition five_in_one_second : database :=
  record_ping 100 (record_ping 100 (record_ping 100 (record_ping 100
    (record_ping 100 alice_db)))).

(** ... and one second apart. *)
Definition five_apart : database :=
  record_ping 105 (record_ping 104 (record_ping 103 (record_ping 102
    (record_ping 101 alice_db)))).

(** ** The remaining views *)

Section Views.

Variable json_dumps : json -> string.

(** [POST /api/operations]: the view [create_operation] behind
    [token_required].  Of the body it reads [operation_type] (a string, or
    absent or null) and [data] (any JSON value, or absent). *)
Definition create_operation_view (db : database) (now : Z)
    (operation_type : option string) (data : option json)
    (current_user : user_row) : database * response :=
  if negb (truthy operation_type) then
    (db, (message "Operation type is required", 400))
  else
    match create_operation json_dumps db now (u_id current_user)
            (default EmptyString operation_type) (default (JObj []) data) with
    | (db', Return operation_id) =>
        (db', (JObj [("message", JStr "Operation created successfully");
                     ("operation_id", JInt operation_id)], 201))
    | (db', Raise e) =>
        (db', (message ("Operation creation failed: " +:+ str_exn e), 500))
    end.

(** How a stored [created_at] reads as text, and [datetime.isoformat()]. *)
Variable timestamp_text : Z -> string.
Variable isoformat : Z -> string.

(** [op['created_at'] > (datetime.now() - timedelta(days=7)).isoformat()],
    a comparison of strings. *)
Definition recent_activity (local_now : Z) (op : operation_row) : bool :=
  String.ltb (isoformat (local_now - 7 * (24 * 3600)))
             (timestamp_text (op_created_at op)).

(** [GET /api/user/profile]; [local_now] is [datetime.now()]. *)
Definition get_user_profile (db : database) (local_now : Z)
    (current_user : user_row) : response :=
  match get_user_operations db (u_id current_user) (Some 1000) with
  | Return operations =>
      (JObj [("user_info",
              JObj [("id", JInt (u_id current_user));
                    ("username", JStr (u_username current_user));
                    ("email", JStr (u_email current_user));
                    ("role", json_of_text (u_role current_user));
                    ("member_since",
                     JStr (timestamp_text (u_created_at current_user)))]);
             ("statistics",
              JObj [("total_operations", JInt (Z.of_nat (length operations)));
                    ("recent_activity",
                     JInt (Z.of_nat (length (List.filter (recent_activity local_now)
                                               operations))))])], 200)
  | Raise e => (message ("Failed to get profile: " +:+ str_exn e), 500)
  end.

End Views.

(** ** Runs of the service *)

(** The two calls that write to the database file. *)
Inductive call :=
  | CallRegister (salt : string) (now : Z) (data : gmap string (option string))
  | CallCreateOperation (now : Z) (operation_type : option string)
      (data : option json) (current_user : user_row).

Section Runs.

Context {W : Werkzeug}.
Variable json_dumps : json -> string.

Definition step (db : database) (c : call) : database :=
  match c with
  | CallRegister salt now data => fst (register db salt now data)
  | CallCreateOperation now operation_type data current_user =>
      fst (create_operation_view json_dumps db now operation_type data current_user)
  end.

Definition run (db : database) (calls : list call) : database :=
  fold_left step calls db.

End Runs.

(** Ids are handed out in increasing order, from 1, and never above the
    AUTOINCREMENT counter. *)
Definition ids_ok (db : database) : Prop :=
  StronglySorted (fun a b => u_id a < u_id b) (users db) /\
  Forall (fun r => 1 <= u_id r <= users_seq db) (users db) /\
  StronglySorted (fun a b => op_id a < op_id b) (api_operations db) /\
  Forall (fun op => 1 <= op_id op <= api_operations_seq db) (api_operations db) /\
  0 <= api_operations_seq db.

(** What a call may do to the file: nothing, append a user, or append an
    operation. *)
Inductive written (db : database) : database -> Prop :=
  | written_nothing : written db db
  | written_user (db' : database) (now : Z) (username email : option string)
      (pwhash : string) (role : option string) (rowid : Z) :
      insert_user db now username email pwhash role = inr (db', rowid) ->
      written db db'
  | written_operation (now user_id : Z) (operation_type data : string) :
      written db (fst (insert_operation db now user_id operation_type data)).

(** The body of a login request. *)
Definition credentials (name pw : string) : gmap string (option string) :=
  <["username" := Some name]> (<["password" := Some pw]> ∅).

(** Stand-ins for the two renderings of an instant, for the concrete runs. *)
Definition ref_timestamp_text (z : Z) : string := text_of_int z.
Definition ref_isoformat (z : Z) : string := text_of_int z.

(** * Properties *)

(** ** The reference instances meet the contracts *)

Lemma string_cons_neq (a : ascii) (s : string) : String a s <> s.
Proof.
  intros H. apply (f_equal String.length) in H. simpl in H. lia.
Qed.

Lemma dollars_rstrip_nul (s : string) : dollars (rstrip_nul s) = dollars s.
Proof.
  induction s as [| c r IH]; [reflexivity |]. simpl.
  destruct (rstrip_nul r) as [| c' r'] eqn:E.
  - simpl in IH. rewrite <- IH.
    destruct (Ascii.eqb_spec c nul) as [-> | _]; reflexivity.
  - simpl. simpl in IH. now rewrite IH.
Qed.

Lemma dollars_hmac_key (pw : string) : dollars (hmac_key pw) = dollars pw.
Proof.
  unfold hmac_key. destruct (_ <=? _)%nat; [apply dollars_rstrip_nul | reflexivity].
Qed.

#[global] Instance ref_werkzeug_laws : WerkzeugLaws ref_werkzeug.
Proof.
  split; simpl.
  - intros _ pw. apply String.eqb_refl.
  - intros _ pw H. apply (f_equal dollars) in H. simpl in H.
    rewrite dollars_hmac_key in H. lia.
Qed.

Lemma pos_of_bits_of_pos (p : positive) : pos_of_bits (bits_of_pos p) = Some p.
Proof.
  induction p as [q IH | q IH |]; simpl; [| | reflexivity]; now rewrite IH.
Qed.

Lemma string_app_cons (a : ascii) (s t : string) :
  String a s +:+ t = String a (s +:+ t).
Proof. reflexivity. Qed.

Lemma string_app_nil_l (t : string) : "" +:+ t = t.
Proof. reflexivity. Qed.

Lemma strip_prefix_app (p s : string) : strip_prefix p (p +:+ s) = Some s.
Proof.
  induction p as [| a p IH]; [reflexivity |].
  rewrite string_app_cons. simpl. now rewrite Ascii.eqb_refl.
Qed.

Lemma string_app_assoc (a b c : string) : (a +:+ b) +:+ c = a +:+ (b +:+ c).
Proof.
  induction a as [| x a IH]; [reflexivity |].
  rewrite !string_app_cons. now rewrite IH.
Qed.

Lemma split_last_app (s : string) (c : ascii) :
  split_last (s +:+ String c EmptyString) = Some (s, c).
Proof.
  induction s as [| x s IH]; [reflexivity |].
  rewrite string_app_cons. simpl. now rewrite IH.
Qed.

Lemma ref_jws_payload_last (payload : gmap string pyval) (key : string) (l : ascii) :
  Ascii.eqb l "A" || Ascii.eqb l "B" = true ->
  ref_jws_payload
    (key +:+ "." +:+ bits_of_pos (encode payload) +:+ String l EmptyString) key
  = Some payload.
Proof.
  intros Hl. unfold ref_jws_payload.
  rewrite <- (string_app_assoc key "."
                (bits_of_pos (encode payload) +:+ String l EmptyString)).
  rewrite strip_prefix_app, split_last_app, Hl, pos_of_bits_of_pos.
  apply decode_encode.
Qed.

Lemma ref_jws_payload_encode (payload : gmap string pyval) (key : string) :
  ref_jws_payload (jwt_encode (PyJWT := ref_jwt) payload key) key = Some payload.
Proof. now apply ref_jws_payload_last. Qed.

Lemma only_exp_no_nbf (payload : gmap string pyval) :
  only_exp payload -> payload !! "nbf" = None.
Proof.
  intros H. unfold only_exp in H. rewrite List.Forall_forall in H.
  apply H. unfold other_registered_claims. simpl. tauto.
Qed.

#[global] Instance ref_jwt_laws : PyJWTLaws ref_jwt.
Proof.
  split.
  - apply ref_jws_payload_encode.
  - intros token key now H. simpl in H |- *. now rewrite H.
  - intros token key now payload e H Honly Hexp Hlt. simpl in H |- *.
    rewrite H. unfold ref_validate_claims, ref_validate_exp.
    rewrite (only_exp_no_nbf _ Honly), Hexp.
    destruct (Z.leb_spec e now); [reflexivity | lia].
  - intros token key now payload e H Honly Hexp Hlt. simpl in H |- *.
    rewrite H. unfold ref_validate_claims, ref_validate_exp.
    rewrite (only_exp_no_nbf _ Honly), Hexp.
    destruct (Z.leb_spec e now); [lia | reflexivity].
Qed.

(** ** The token gate *)

Lemma strip_bearer_prefixed (token : string) :
  strip_bearer ("Bearer " +:+ token) = token.
Proof. destruct token; reflexivity. Qed.

Lemma truthy_bearer (token : string) : truthy (Some ("Bearer " +:+ token)) = true.
Proof. reflexivity. Qed.

Lemma truthy_false (v : option string) :
  truthy v = false <-> v = None \/ v = Some "".
Proof.
  destruct v as [s |]; simpl.
  - rewrite Bool.negb_false_iff, String.eqb_eq. split.
    + intros ->. now right.
    + intros [H | H]; congruence.
  - split; [now left | reflexivity].
Qed.

Section TokenGate.

Context {J : PyJWT}.
Variable SECRET_KEY : string.
Variable f : user_row -> response.
Variables (db : database) (now : Z).

Local Notation "'gate'" := (token_required SECRET_KEY f db now).
Local Notation "'verdict' header" :=
  (jwt_decode (strip_bearer (default "" header)) SECRET_KEY now) (at level 10).

Lemma gate_missing (header : option string) :
  truthy header = false -> gate header = Return missing_response.
Proof. intros H. unfold token_required. now rewrite H. Qed.

Lemma gate_expired (header : option string) :
  truthy header = true -> verdict header = ExpiredSignatureError ->
  gate header = Return expired_response.
Proof. intros H D. unfold token_required. now rewrite H, D. Qed.

Lemma gate_invalid (header : option string) :
  truthy header = true -> verdict header = InvalidTokenError ->
  gate header = Return invalid_response.
Proof. intros H D. unfold token_required. now rewrite H, D. Qed.

Lemma gate_resolve (header : option string) (data : gmap string pyval) (name : pyval) :
  truthy header = true -> verdict header = Decoded data ->
  data !! "username" = Some name ->
  gate header =
    match get_user_by_username db name with
    | Raise e => Raise e
    | Return None => Return invalid_response
    | Return (Some current_user) => Return (f current_user)
    end.
Proof.
  intros H D N. unfold token_required. rewrite H, D, N. simpl.
  now destruct (get_user_by_username db name) as [[u |] | e].
Qed.

Lemma gate_no_username (header : option string) (data : gmap string pyval) :
  truthy header = true -> verdict header = Decoded data ->
  data !! "username" = None ->
  gate header = Raise (KeyError "username").
Proof. intros H D N. unfold token_required. now rewrite H, D, N. Qed.

(** Every run of the gate ends in one of these ways. *)
Lemma gate_cases (header : option string) :
  (truthy header = false /\ gate header = Return missing_response) \/
  (truthy header = true /\
   ((verdict header = ExpiredSignatureError /\ gate header = Return expired_response) \/
    (verdict header = InvalidTokenError /\ gate header = Return invalid_response) \/
    (exists data, verdict header = Decoded data /\
       ((data !! "username" = None /\ gate header = Raise (KeyError "username")) \/
        (exists name, data !! "username" = Some name /\
           ((exists e, get_user_by_username db name = Raise e /\ gate header = Raise e) \/
            (get_user_by_username db name = Return None /\
             gate header = Return invalid_response) \/
            (exists current_user,
               get_user_by_username db name = Return (Some current_user) /\
               gate header = Return (f current_user)))))))).
Proof.
  destruct (truthy header) eqn:H; [right; split; [reflexivity |] | left; split; [reflexivity |]].
  2: now apply gate_missing.
  destruct (verdict header) as [data | |] eqn:D.
  - right; right. exists data. split; [reflexivity |].
    destruct (data !! "username") as [name |] eqn:N.
    + right. exists name. split; [reflexivity |].
      rewrite (gate_resolve header data name H D N).
      destruct (get_user_by_username db name) as [[u |] | e].
      * right; right. now exists u.
      * right; left. now split.
      * left. now exists e.
    + left. split; [reflexivity |]. now apply (gate_no_username header data).
  - left. split; [reflexivity |]. now apply gate_expired.
  - right; left. split; [reflexivity |]. now apply gate_invalid.
Qed.

End TokenGate.

(** C1.  The gate handles a missing header, an expired token, an invalid
    token and an unknown user as the state machine says, but a token that
    verifies and whose payload has no [username] entry is neither rejected
    nor admitted: [data['username']] raises [KeyError], which none of the
    [except] clauses catches, so the request ends in a server error. *)
Theorem token_required_payload_without_username
    {J : PyJWT} (SECRET_KEY : string) (f : user_row -> response)
    (db : database) (now : Z) (token : string) (data : gmap string pyval) :
  jwt_decode token SECRET_KEY now = Decoded data ->
  data !! "username" = None ->
  token_required SECRET_KEY f db now (Some ("Bearer " +:+ token))
    = Raise (KeyError "username")
  /\ token_required SECRET_KEY f db now (Some ("Bearer " +:+ token))
    <> Return invalid_response.
Proof.
  intros D N.
  assert (token_required SECRET_KEY f db now (Some ("Bearer " +:+ token))
          = Raise (KeyError "username")) as E.
  { apply (gate_no_username SECRET_KEY f db now _ data); [reflexivity | | exact N].
    simpl. now rewrite strip_bearer_prefixed. }
  split; [exact E | rewrite E; discriminate].
Qed.

Lemma token_required_payload_without_username_run :
  let token := jwt_encode (PyJWT := ref_jwt) ∅ "dev-secret-key-change-me" in
  jwt_decode (PyJWT := ref_jwt) token "dev-secret-key-change-me" 0 = Decoded ∅ /\
  token_required (J := ref_jwt) "dev-secret-key-change-me" (fun _ => (JNull, 200))
    init_database 0 (Some ("Bearer " +:+ token)) = Raise (KeyError "username").
Proof.
  assert (jwt_decode (PyJWT := ref_jwt)
            (jwt_encode (PyJWT := ref_jwt) ∅ "dev-secret-key-change-me")
            "dev-secret-key-change-me" 0 = Decoded ∅) as D.
  { change (match ref_jws_payload
                     (jwt_encode (PyJWT := ref_jwt) ∅ "dev-secret-key-change-me")
                     "dev-secret-key-change-me" with
            | None => InvalidTokenError
            | Some payload => ref_validate_claims payload 0
            end = Decoded ∅).
    now rewrite ref_jws_payload_encode. }
  split; [exact D |].
  exact (proj1 (token_required_payload_without_username
                  "dev-secret-key-change-me" (fun _ => (JNull, 200))
                  init_database 0 _ ∅ D eq_refl)).
Defined.

(** ** The credential store *)

Lemma existsb_username_false (name : string) (rows : list user_row) :
  existsb (username_is name) rows = false <->
  forall r, In r rows -> u_username r <> name.
Proof.
  induction rows as [| h t IH]; simpl.
  - split; [intros _ r [] | reflexivity].
  - rewrite Bool.orb_false_iff, IH. unfold username_is at 1.
    rewrite String.eqb_neq. split.
    + intros [Hh Ht] r [<- | Hr]; [exact Hh | now apply Ht].
    + intros H. split; [apply H; now left | intros r Hr; apply H; now right].
Qed.

Lemma existsb_email_false (addr : string) (rows : list user_row) :
  existsb (email_is addr) rows = false <->
  forall r, In r rows -> u_email r <> addr.
Proof.
  induction rows as [| h t IH]; simpl.
  - split; [intros _ r [] | reflexivity].
  - rewrite Bool.orb_false_iff, IH. unfold email_is at 1.
    rewrite String.eqb_neq. split.
    + intros [Hh Ht] r [<- | Hr]; [exact Hh | now apply Ht].
    + intros H. split; [apply H; now left | intros r Hr; apply H; now right].
Qed.





Lemma insert_user_inv (db db' : database) (now : Z) (username email : option string)
    (pwhash : string) (role : option string) (rowid : Z) :
  insert_user db now username email pwhash role = inr (db', rowid) ->
  exists name addr,
    username = Some name /\ email = Some addr /\
    (forall r, In r (users db) -> u_username r <> name) /\
    (forall r, In r (users db) -> u_email r <> addr) /\
    rowid = users_seq db + 1 /\
    db' = {| users := users db ++ [new_user_row db now name addr pwhash role];
             users_seq := users_seq db + 1;
             api_operations := api_operations db;
             api_operations_seq := api_operations_seq db |}.
Proof.
  unfold insert_user. intros H.
  destruct username as [name |]; [| discriminate].
  destruct email as [addr |]; [| discriminate].
  destruct (existsb (username_is name) (users db)) eqn:Hu; [discriminate |].
  destruct (existsb (email_is addr) (users db)) eqn:He; [discriminate |].
  injection H as <- <-. exists name, addr.
  repeat split; try reflexivity.
  - now apply existsb_username_false.
  - now apply existsb_email_false.
Qed.


Lemma find_username_some (name : string) (rows : list user_row) (row : user_row) :
  List.find (username_is name) rows = Some row ->
  In row rows /\ u_username row = name.
Proof.
  intros H. apply find_some in H. destruct H as [Hin Hname].
  split; [exact Hin | now apply String.eqb_eq].
Qed.

Lemma find_username_none (name : string) (rows : list user_row) :
  List.find (username_is name) rows = None <->
  forall r, In r rows -> u_username r <> name.
Proof.
  split.
  - intros H r Hr E. apply (find_none _ _ H) in Hr.
    unfold username_is in Hr. rewrite E, String.eqb_refl in Hr. discriminate.
  - intros H. induction rows as [| h t IH]; [reflexivity |]. simpl.
    unfold username_is at 1.
    destruct (String.eqb_spec (u_username h) name) as [E | _].
    + exfalso. apply (H h); [now left | exact E].
    + apply IH. intros r Hr. apply H. now right.
Qed.

Lemma store_ok_init : store_ok init_database.
Proof. repeat split; simpl; [apply List.NoDup_nil | apply List.NoDup_nil | lia]. Qed.

Lemma NoDup_snoc {A} (l : list A) (x : A) :
  List.NoDup l -> ~ In x l -> List.NoDup (l ++ [x]).
Proof.
  intros Hl Hx. induction l as [| h t IH]; simpl.
  - apply List.NoDup_cons; [intros [] | apply List.NoDup_nil].
  - apply List.NoDup_cons_iff in Hl. destruct Hl as [Hh Ht].
    apply List.NoDup_cons.
    + rewrite in_app_iff. intros [H | [H | []]]; [now apply Hh |].
      apply Hx. now left.
    + apply IH; [exact Ht |]. intros H. apply Hx. now right.
Qed.

Lemma store_ok_insert_user (db db' : database) (now : Z)
    (username email : option string) (pwhash : string) (role : option string)
    (rowid : Z) :
  store_ok db ->
  insert_user db now username email pwhash role = inr (db', rowid) ->
  store_ok db' /\ 0 < rowid.
Proof.
  intros (Hu & He & Hs) H.
  apply insert_user_inv in H.
  destruct H as (name & addr & -> & -> & Fu & Fe & -> & ->).
  split; [| lia]. unfold store_ok. simpl. rewrite !map_app. simpl.
  repeat split; [| | lia].
  - apply NoDup_snoc; [exact Hu |]. rewrite in_map_iff.
    intros (r & E & Hr). now apply (Fu r).
  - apply NoDup_snoc; [exact He |]. rewrite in_map_iff.
    intros (r & E & Hr). now apply (Fe r).
Qed.



Lemma has_key_lookup (data : gmap string (option string)) (key : string)
    (v : option string) :
  data !! key = Some v -> has_key data key = true /\ get data key = v.
Proof.
  intros H. unfold has_key, get. rewrite H. split; [| reflexivity].
  apply bool_decide_eq_true. now exists v.
Qed.

Section Store.

Context {W : Werkzeug}.


Lemma create_user_inv (db db' : database) (salt : string) (now : Z)
    (username email : option string) (pw : string) (role : option string)
    (user_id : Z) :
  create_user db salt now username email (Some pw) role
    = (db', Return (Some user_id)) ->
  insert_user db now username email (generate_password_hash salt pw) role
    = inr (db', user_id).
Proof.
  unfold create_user.
  destruct (insert_user _ _ _ _ _ _) as [[] | [d i]]; intros H; try discriminate.
  now injection H as <- <-.
Qed.

Lemma register_rejected (db : database) (salt : string) (now : Z)
    (data : gmap string (option string)) (username email : option string)
    (pw : string) :
  data !! "username" = Some username ->
  data !! "email" = Some email ->
  data !! "password" = Some (Some pw) ->
  (forall role, create_user db salt now username email (Some pw) role
                = (db, Return None)) ->
  register db salt now data
    = (db, (message "Username or email already exists", 409)).
Proof.
  intros Hu He Hp Hc. unfold register. simpl.
  destruct (has_key_lookup _ _ _ Hu) as [-> ->].
  destruct (has_key_lookup _ _ _ He) as [-> ->].
  destruct (has_key_lookup _ _ _ Hp) as [-> ->].
  now rewrite Hc.
Qed.

(** Every call of the store keeps the invariant. *)
Lemma store_ok_create_user (db db' : database) (salt : string) (now : Z)
    (username email password role : option string) (r : result (option Z)) :
  store_ok db ->
  create_user db salt now username email password role = (db', r) ->
  store_ok db'.
Proof.
  intros Hok. unfold create_user.
  destruct password as [pw |]; [| intros H; now injection H as <- _].
  destruct (insert_user db now username email (generate_password_hash salt pw) role)
    as [e | [d i]] eqn:Hins.
  - destruct e; intros H; now injection H as <- _.
  - intros H. injection H as <- _.
    apply (store_ok_insert_user db d now username email
             (generate_password_hash salt pw) role i Hok Hins).
Qed.

Lemma store_ok_create_operation (json_dumps : json -> string) (db : database)
    (now user_id : Z) (operation_type : string) (data : json) :
  store_ok db ->
  store_ok (fst (create_operation json_dumps db now user_id operation_type data)).
Proof.
  intros Hok. unfold create_operation.
  destruct (bind_int user_id); exact Hok.
Qed.

End Store.


Lemma alice_db_registered :
  create_user (W := ref_werkzeug) init_database "salt" 100
    (Some "alice") (Some "alice@x.com") (Some "pw12345") (Some "user")
  = (alice_db, Return (Some 1)).
Proof. reflexivity. Qed.






(** C8.  A NULL username breaks the NOT NULL constraint, not a UNIQUE one,
    yet [create_user] answers it exactly as it answers a duplicate: the
    [except sqlite3.IntegrityError] clause returns [None] for both, and
    [register] reports that the username or email already exists even on an
    empty store. *)
Theorem create_user_null_username_reported_as_conflict {W : Werkzeug}
    (salt : string) (now : Z) :
  users init_database = [] /\
  insert_user init_database now None (Some "a@x.com")
    (generate_password_hash salt "pw") (Some "user")
    = inl (IntegrityError "NOT NULL constraint failed: users.username") /\
  create_user init_database salt now None (Some "a@x.com") (Some "pw") (Some "user")
    = (init_database, Return None) /\
  register init_database salt now
    (<["username" := None]> (<["email" := Some "a@x.com"]>
       (<["password" := Some "pw"]> ∅)))
    = (init_database, (message "Username or email already exists", 409)).
Proof.
  split; [reflexivity |]. split; [reflexivity |]. split; [reflexivity |].
  apply (register_rejected _ _ _ _ None (Some "a@x.com") "pw"); try reflexivity.
Qed.

(** ** Login *)

Lemma truthy_some (v : option string) :
  truthy v = true <-> exists s, v = Some s /\ s <> "".
Proof.
  destruct v as [s |]; simpl.
  - rewrite Bool.negb_true_iff, String.eqb_neq. split.
    + intros H. now exists s.
    + intros (s' & E & H). congruence.
  - split; [discriminate | intros (s & E & _); discriminate].
Qed.

Lemma get_user_by_username_text (db : database) (name : string) :
  get_user_by_username db (PStr name)
    = Return (List.find (username_is name) (users db)).
Proof. reflexivity. Qed.

Lemma one_char_off_neq (pw candidate : string) :
  one_char_off pw candidate -> candidate <> pw.
Proof.
  intros (before & after & a & b & Hab & -> & ->) E.
  apply Hab. induction before as [| x before IH].
  - rewrite !string_app_nil_l in E. congruence.
  - rewrite !string_app_cons in E. injection E as E. now apply IH.
Qed.

Section Login.

Context {W : Werkzeug} {J : PyJWT}.
Variable SECRET_KEY : string.
Variables (db : database) (now : Z).
Variable data : gmap string (option string).


(** Once both fields are there, the answer is decided by the lookup and by
    [check_password_hash] on the stored hash. *)
Lemma login_checked (name pw : string) :
  get data "username" = Some name -> name <> "" ->
  get data "password" = Some pw -> pw <> "" ->
  login SECRET_KEY db now data =
    match List.find (username_is name) (users db) with
    | Some user =>
        if check_password_hash (u_password_hash user) pw then
          (JObj [("message", JStr "Login successful");
                 ("token", JStr (jwt_encode (token_claims user now) SECRET_KEY));
                 ("user", JObj [("id", JInt (u_id user));
                                ("username", JStr (u_username user));
                                ("email", JStr (u_email user));
                                ("role", json_of_text (u_role user))])], 200)
        else
          match check_password_hash_raises (u_password_hash user) pw with
          | Some e => (message ("Login failed: " +:+ str_exn e), 500)
          | None => (message "Invalid credentials", 401)
          end
    | None => (message "Invalid credentials", 401)
    end.
Proof.
  intros Hn Hne Hp Hpe. unfold login.
  assert (truthy (get data "username") = true) as ->.
  { apply truthy_some. now exists name. }
  assert (truthy (get data "password") = true) as ->.
  { apply truthy_some. now exists pw. }
  rewrite Hn, Hp. reflexivity.
Qed.

End Login.







(** ** Tokens *)

Lemma token_claims_username (user : user_row) (now : Z) :
  token_claims user now !! "username" = Some (PStr (u_username user)).
Proof. reflexivity. Qed.

Lemma token_claims_user_id (user : user_row) (now : Z) :
  token_claims user now !! "user_id" = Some (PInt (u_id user)).
Proof. reflexivity. Qed.

Lemma token_claims_role (user : user_row) (now : Z) :
  token_claims user now !! "role"
    = Some (match u_role user with Some r => PStr r | None => PNone end).
Proof. reflexivity. Qed.

Lemma token_claims_exp (user : user_row) (now : Z) :
  token_claims user now !! "exp" = Some (PInt (now + 24 * 3600)).
Proof. reflexivity. Qed.

Lemma token_claims_only_exp (user : user_row) (now : Z) :
  only_exp (token_claims user now).
Proof. unfold only_exp, other_registered_claims. repeat constructor. Qed.

Lemma token_claims_dom (user : user_row) (now : Z) :
  dom (token_claims user now) = ({[ "username"; "user_id"; "role"; "exp" ]} : gset string).
Proof.
  unfold token_claims. rewrite !dom_insert_L, dom_empty_L. set_solver.
Qed.

Section IssuedToken.

Context {J : PyJWT} {JL : PyJWTLaws J}.
Variable SECRET_KEY : string.

Lemma issued_token_live (user : user_row) (issued now : Z) :
  now < issued + 24 * 3600 ->
  jwt_decode (jwt_encode (token_claims user issued) SECRET_KEY) SECRET_KEY now
    = Decoded (token_claims user issued).
Proof.
  intros H. apply (decode_live _ _ _ _ (issued + 24 * 3600)).
  - apply jws_encode.
  - apply token_claims_only_exp.
  - apply token_claims_exp.
  - exact H.
Qed.


End IssuedToken.

(** C2.  A successful login answers with a token that is the signed encoding
    of a payload holding exactly [username], [user_id], [role] and [exp],
    the first three taken from the user's row and [exp] 24 hours after the
    clock reading; at any time before [exp] decoding that token under the
    same key gives the payload back, and the token gate admits the request
    with that user's row. *)
Theorem login_token_round_trip
    {W : Werkzeug} {J : PyJWT} {JL : PyJWTLaws J}
    (SECRET_KEY : string) (f : user_row -> response) (db : database) (now : Z)
    (data : gmap string (option string)) (name pw : string) (user : user_row) :
  get data "username" = Some name -> name <> "" ->
  get data "password" = Some pw -> pw <> "" ->
  get_user_by_username db (PStr name) = Return (Some user) ->
  check_password_hash (u_password_hash user) pw = true ->
  let claims := token_claims user now in
  let token := jwt_encode claims SECRET_KEY in
  login SECRET_KEY db now data
    = (JObj [("message", JStr "Login successful");
             ("token", JStr token);
             ("user", JObj [("id", JInt (u_id user));
                            ("username", JStr (u_username user));
                            ("email", JStr (u_email user));
                            ("role", json_of_text (u_role user))])], 200) /\
  dom claims = ({[ "username"; "user_id"; "role"; "exp" ]} : gset string) /\
  claims !! "username" = Some (PStr (u_username user)) /\
  claims !! "user_id" = Some (PInt (u_id user)) /\
  claims !! "role" = Some (match u_role user with Some r => PStr r | None => PNone end) /\
  claims !! "exp" = Some (PInt (now + 24 * 3600)) /\
  jws_payload token SECRET_KEY = Some claims /\
  (forall later, later < now + 24 * 3600 ->
     jwt_decode token SECRET_KEY later = Decoded claims /\
     token_required SECRET_KEY f db later (Some ("Bearer " +:+ token))
       = Return (f user)).
Proof.
  intros Hn Hne Hp Hpe Hfind Hcheck claims token.
  pose proof Hfind as Hfind'.
  rewrite get_user_by_username_text in Hfind'. injection Hfind' as Hfind'.
  split.
  { rewrite (login_checked SECRET_KEY db now data name pw Hn Hne Hp Hpe).
    now rewrite Hfind', Hcheck. }
  split; [apply token_claims_dom |].
  do 4 (split; [reflexivity |]).
  split; [apply jws_encode |].
  intros later Hlater.
  assert (jwt_decode token SECRET_KEY later = Decoded claims) as D.
  { now apply issued_token_live. }
  split; [exact D |].
  rewrite (gate_resolve SECRET_KEY f db later _ claims (PStr (u_username user))).
  - destruct (find_username_some _ _ _ Hfind') as [_ ->]. now rewrite Hfind.
  - reflexivity.
  - simpl. now rewrite strip_bearer_prefixed.
  - reflexivity.
Qed.

Lemma login_token_round_trip_alice :
  let token := jwt_encode (PyJWT := ref_jwt) (token_claims alice_row 500) "k" in
  jwt_decode (PyJWT := ref_jwt) token "k" 500 = Decoded (token_claims alice_row 500) /\
  token_required (J := ref_jwt) "k" (fun u => (JStr (u_username u), 200)) alice_db 500
    (Some ("Bearer " +:+ token)) = Return (JStr "alice", 200).
Proof.
  assert (500 < 500 + 24 * 3600) as Hlive by lia.
  exact (proj2 (proj2 (proj2 (proj2 (proj2 (proj2 (proj2
    (login_token_round_trip (W := ref_werkzeug) (J := ref_jwt)
       "k" (fun u => (JStr (u_username u), 200)) alice_db 500
       (<["username" := Some "alice"]> (<["password" := Some "pw12345"]> ∅))
       "alice" "pw12345" alice_row
       eq_refl ltac:(discriminate) eq_refl ltac:(discriminate) eq_refl eq_refl)))))))
    500 Hlive).
Defined.






(** ** The operation ledger *)

Lemma sorter_insert_perm (r : operation_row) (l : list operation_row) :
  Permutation (sorter_insert r l) (r :: l).
Proof.
  induction l as [| h t IH]; simpl; [reflexivity |].
  destruct (op_created_at h <? op_created_at r); [reflexivity |].
  rewrite IH. apply perm_swap.
Qed.

Lemma sorter_insert_sorted (r : operation_row) (l : list operation_row) :
  StronglySorted not_older l -> StronglySorted not_older (sorter_insert r l).
Proof.
  induction l as [| h t IH]; simpl; intros Hs.
  - repeat constructor.
  - apply StronglySorted_inv in Hs. destruct Hs as [Ht Hh].
    destruct (Z.ltb_spec (op_created_at h) (op_created_at r)) as [Hlt | Hge].
    + constructor; [now constructor |].
      constructor; [unfold not_older; lia |].
      eapply List.Forall_impl; [| exact Hh]. unfold not_older. intros x Hx. lia.
    + constructor; [now apply IH |].
      rewrite (sorter_insert_perm r t). constructor; [exact Hge | exact Hh].
Qed.

Lemma fold_sorter_perm (rows acc : list operation_row) :
  Permutation (fold_left (fun sorted r => sorter_insert r sorted) rows acc)
              (acc ++ rows).
Proof.
  revert acc. induction rows as [| r rows IH]; intros acc; simpl.
  - now rewrite app_nil_r.
  - rewrite IH, sorter_insert_perm. apply Permutation_middle.
Qed.

Lemma fold_sorter_sorted (rows acc : list operation_row) :
  StronglySorted not_older acc ->
  StronglySorted not_older (fold_left (fun sorted r => sorter_insert r sorted) rows acc).
Proof.
  revert acc. induction rows as [| r rows IH]; intros acc Hacc; simpl.
  - exact Hacc.
  - apply IH. now apply sorter_insert_sorted.
Qed.

Lemma order_by_perm (rows : list operation_row) :
  Permutation (order_by_created_at_desc rows) rows.
Proof. apply (fold_sorter_perm rows []). Qed.

Lemma order_by_sorted (rows : list operation_row) :
  StronglySorted not_older (order_by_created_at_desc rows).
Proof. apply fold_sorter_sorted. constructor. Qed.

(** With pairwise distinct timestamps the order is strict. *)
Lemma sorted_distinct_strict (l : list operation_row) :
  StronglySorted not_older l ->
  List.NoDup (map op_created_at l) ->
  StronglySorted newer l.
Proof.
  induction l as [| h t IH]; simpl; intros Hs Hnd; [constructor |].
  apply StronglySorted_inv in Hs. destruct Hs as [Ht Hh].
  apply List.NoDup_cons_iff in Hnd. destruct Hnd as [Hnotin Hnd].
  constructor; [now apply IH |].
  rewrite List.Forall_forall in Hh |- *. intros x Hx.
  pose proof (Hh x Hx) as Hle. unfold not_older in Hle. unfold newer.
  assert (op_created_at x <> op_created_at h).
  { intros E. apply Hnotin. rewrite <- E. now apply in_map. }
  lia.
Qed.

Lemma NoDup_map_perm {A B} (g : A -> B) (l l' : list A) :
  Permutation l l' -> List.NoDup (map g l) -> List.NoDup (map g l').
Proof.
  intros Hp. apply Permutation_NoDup. now apply Permutation_map.
Qed.

Lemma sorted_firstn {R : operation_row -> operation_row -> Prop}
    (n : nat) (l : list operation_row) :
  StronglySorted R l ->
  StronglySorted R (firstn n l) /\
  (forall a b, In a (firstn n l) -> In b (skipn n l) -> R a b).
Proof.
  intros Hs. rewrite <- (firstn_skipn n l) in Hs.
  apply StronglySorted_app in Hs. destruct Hs as (Hcross & Hl & _).
  split; [exact Hl |].
  intros a b Ha Hb. apply Hcross; now apply list_elem_of_In.
Qed.

Lemma bind_int_in_range (z : Z) : is_int64 z = true -> bind_int z = Return z.
Proof. intros H. unfold bind_int. now rewrite H. Qed.

Lemma is_int64_spec (z : Z) : is_int64 z = true <-> - 2 ^ 63 <= z < 2 ^ 63.
Proof.
  unfold is_int64. rewrite Bool.andb_true_iff, Z.leb_le, Z.ltb_lt. tauto.
Qed.

Lemma get_user_operations_in_range (db : database) (user_id limit : Z) :
  is_int64 user_id = true -> is_int64 limit = true ->
  get_user_operations db user_id (Some limit)
    = Return (sql_limit limit (order_by_created_at_desc (operations_of db user_id))).
Proof.
  intros Hu Hl. unfold get_user_operations. simpl.
  rewrite (bind_int_in_range _ Hu). simpl.
  rewrite (bind_int_in_range _ Hl). reflexivity.
Qed.

(** C6, as the code has it.  For a limit from 0 up to the largest SQLite
    integer, the listing is the first [limit] rows of the user's operations
    ordered by [created_at], newest first: no listed row is older than a
    later or an omitted one, and the order is strict when the timestamps are
    pairwise distinct.  The query names no second sort key, so nothing is
    said about rows with equal timestamps.  The limit is 10 when omitted. *)
Theorem get_user_operations_newest_first
    (db : database) (user_id limit : Z) :
  is_int64 user_id = true ->
  0 <= limit < 2 ^ 63 ->
  exists ops rest,
    get_user_operations db user_id (Some limit) = Return ops /\
    Permutation (ops ++ rest) (operations_of db user_id) /\
    StronglySorted not_older ops /\
    (forall a b, In a ops -> In b rest -> not_older a b) /\
    length ops = Nat.min (Z.to_nat limit) (length (operations_of db user_id)) /\
    (List.NoDup (map op_created_at (operations_of db user_id)) ->
       StronglySorted newer ops /\
       (forall a b, In a ops -> In b rest -> newer a b)) /\
    get_user_operations db user_id None = get_user_operations db user_id (Some 10) /\
    (forall current_user,
       get_operations db None current_user = get_operations db (Some 10) current_user).
Proof.
  intros Hu Hl.
  set (sorted := order_by_created_at_desc (operations_of db user_id)).
  exists (firstn (Z.to_nat limit) sorted), (skipn (Z.to_nat limit) sorted).
  assert (Permutation sorted (operations_of db user_id)) as Hperm
    by apply order_by_perm.
  assert (StronglySorted not_older sorted) as Hsorted by apply order_by_sorted.
  split.
  { rewrite get_user_operations_in_range; [| exact Hu | apply is_int64_spec; lia].
    unfold sql_limit. destruct (Z.ltb_spec limit 0); [lia | reflexivity]. }
  split; [now rewrite firstn_skipn |].
  split; [now apply sorted_firstn |].
  split; [now apply sorted_firstn |].
  split.
  { rewrite length_firstn. now rewrite (Permutation_length Hperm). }
  split.
  { intros Hnd. apply sorted_firstn. apply sorted_distinct_strict; [exact Hsorted |].
    apply (NoDup_map_perm op_created_at (operations_of db user_id)); [| exact Hnd].
    now symmetry. }
  split; reflexivity.
Qed.

(** After five operations one second apart, [limit=2] lists the two most
    recent, newest first. *)
Lemma get_user_operations_newest_first_five_apart :
  is_int64 1 = true /\ 0 <= 2 < 2 ^ 63 /\
  exists ops,
    get_user_operations five_apart 1 (Some 2) = Return ops /\
    map op_id ops = [5; 4] /\
    StronglySorted not_older ops /\
    length ops = 2%nat.
Proof.
  split; [reflexivity |]. split; [lia |].
  destruct (get_user_operations_newest_first five_apart 1 2 eq_refl
              ltac:(lia))
    as (ops & rest & Hget & _ & Hsorted & _ & Hlen & _).
  exists ops. split; [exact Hget |].
  split.
  - assert (Return ops = Return (firstn 2 (order_by_created_at_desc
                                            (operations_of five_apart 1)))) as E.
    { rewrite <- Hget. reflexivity. }
    injection E as ->. reflexivity.
  - split; [exact Hsorted | exact Hlen].
Defined.

(** The claim as written promises the two most recent of five operations
    and a size within the limit.  Five operations recorded within one second
    carry the same [created_at]; the query has no second sort key, the
    sorter keeps them in rowid order, and [limit=2] lists the two oldest.
    A negative limit lists all five. *)
Lemma get_user_operations_ties_oldest_first :
  map op_id (operations_of five_in_one_second 1) = [1; 2; 3; 4; 5] /\
  (exists ops,
     get_user_operations five_in_one_second 1 (Some 2) = Return ops /\
     map op_id ops = [1; 2] /\
     ~ StronglySorted newer_then_later ops) /\
  (exists ops,
     get_user_operations five_in_one_second 1 (Some (-1)) = Return ops /\
     ~ (Z.of_nat (length ops) <= -1)).
Proof.
  split; [reflexivity |]. split.
  - eexists. split; [reflexivity |]. split; [reflexivity |].
    intros Hs. apply StronglySorted_inv in Hs. destruct Hs as [_ Hs].
    apply Forall_inv in Hs. unfold newer_then_later in Hs. simpl in Hs. lia.
  - eexists. split; [reflexivity |]. simpl. lia.
Qed.

(** C9, as the code has it.  A negative limit that fits a 64-bit SQLite
    integer lifts the bound: the listing holds every operation of the user.
    The route hands whatever integer the client sent to the store as it is. *)
Theorem get_user_operations_negative_limit
    (db : database) (user_id limit : Z) :
  is_int64 user_id = true ->
  - 2 ^ 63 <= limit < 0 ->
  exists ops,
    get_user_operations db user_id (Some limit) = Return ops /\
    Permutation ops (operations_of db user_id) /\
    length ops = length (operations_of db user_id) /\
    (forall (current_user : user_row) (z : Z),
       get_operations db (Some z) current_user =
         match get_user_operations db (u_id current_user) (Some z) with
         | Return operations =>
             (JObj [("operations", JList (map json_of_operation operations));
                    ("count", JInt (Z.of_nat (length operations)))], 200)
         | Raise e =>
             (message ("Failed to retrieve operations: " +:+ str_exn e), 500)
         end).
Proof.
  intros Hu Hl.
  exists (order_by_created_at_desc (operations_of db user_id)).
  split.
  { rewrite get_user_operations_in_range; [| exact Hu | apply is_int64_spec; lia].
    unfold sql_limit. destruct (Z.ltb_spec limit 0); [reflexivity | lia]. }
  split; [apply order_by_perm |].
  split; [apply Permutation_length, order_by_perm |].
  reflexivity.
Qed.

Lemma get_user_operations_negative_limit_five :
  is_int64 1 = true /\ - 2 ^ 63 <= -1 < 0 /\
  exists ops,
    get_user_operations five_apart 1 (Some (-1)) = Return ops /\
    length ops = 5%nat.
Proof.
  split; [reflexivity |]. split; [lia |].
  destruct (get_user_operations_negative_limit five_apart 1 (-1) eq_refl
              ltac:(lia))
    as (ops & Hget & _ & Hlen & _).
  exists ops. split; [exact Hget | exact Hlen].
Defined.

(** The claim as written covers every negative integer; one below the
    64-bit range never reaches SQLite: binding it raises [OverflowError]
    and the route answers 500. *)
Lemma get_user_operations_limit_below_int64 :
  - 2 ^ 63 - 1 < 0 /\
  get_user_operations five_apart 1 (Some (- 2 ^ 63 - 1)) = Raise OverflowError /\
  get_operations five_apart (Some (- 2 ^ 63 - 1)) alice_row
    = (message "Failed to retrieve operations: Python int too large to convert to SQLite INTEGER",
       500).
Proof. split; [lia |]. split; reflexivity. Qed.

(** ** Registration *)

Lemma has_key_absent (data : gmap string (option string)) (key : string) :
  data !! key = None -> has_key data key = false.
Proof.
  intros H. unfold has_key. rewrite H. apply bool_decide_eq_false.
  intros [v Hv]. discriminate.
Qed.

Lemma find_app_some {A} (p : A -> bool) (l l' : list A) (x : A) :
  List.find p l = Some x -> List.find p (l ++ l') = Some x.
Proof.
  induction l as [| h t IH]; simpl; [discriminate |].
  destruct (p h); [trivial | exact IH].
Qed.

Lemma get_user_by_username_in (db : database) (key : pyval) (user : user_row) :
  get_user_by_username db key = Return (Some user) -> In user (users db).
Proof.
  unfold get_user_by_username.
  destruct (bind_text_key key) as [[name |] | e]; simpl; intros H;
    try discriminate.
  injection H as H. now apply find_some in H.
Qed.




(** X2.  A body that lacks [username], [email] or [password] is answered
    400 and nothing is written, whatever else the body holds. *)
Theorem register_missing_field {W : Werkzeug}
    (db : database) (salt : string) (now : Z)
    (data : gmap string (option string)) :
  data !! "username" = None \/ data !! "email" = None \/
  data !! "password" = None ->
  register db salt now data = (db, (message "Missing required fields", 400)).
Proof.
  intros H. unfold register. simpl.
  destruct H as [H | [H | H]]; rewrite (has_key_absent _ _ H); simpl;
    rewrite ?Bool.andb_false_r; reflexivity.
Qed.

Lemma register_missing_field_no_password :
  register (W := ref_werkzeug) alice_db "salt" 100
    (<["username" := Some "bob"]> (<["email" := Some "bob@x.com"]> ∅))
  = (alice_db, (message "Missing required fields", 400)).
Proof.
  apply (register_missing_field (W := ref_werkzeug)).
  right; right. reflexivity.
Defined.

(** X3.  A body whose [password] is null passes the required-fields check,
    the hasher then raises, and the answer is 500 with nothing written. *)
Theorem register_null_password {W : Werkzeug}
    (db : database) (salt : string) (now : Z)
    (data : gmap string (option string)) (username email : option string) :
  data !! "username" = Some username ->
  data !! "email" = Some email ->
  data !! "password" = Some None ->
  fst (register db salt now data) = db /\
  snd (snd (register db salt now data)) = 500.
Proof.
  intros Du De Dp. unfold register. simpl.
  destruct (has_key_lookup _ _ _ Du) as [-> ->].
  destruct (has_key_lookup _ _ _ De) as [-> ->].
  destruct (has_key_lookup _ _ _ Dp) as [-> ->].
  split; reflexivity.
Qed.

Lemma register_null_password_run :
  snd (snd (register (W := ref_werkzeug) alice_db "salt" 100
              (<["username" := Some "bob"]> (<["email" := Some "bob@x.com"]>
                 (<["password" := None]> ∅))))) = 500.
Proof.
  exact (proj2 (register_null_password (W := ref_werkzeug) alice_db "salt" 100
                  (<["username" := Some "bob"]> (<["email" := Some "bob@x.com"]>
                     (<["password" := None]> ∅)))
                  (Some "bob") (Some "bob@x.com") eq_refl eq_refl eq_refl)).
Defined.

(** ** From registration to an admitted request *)

Lemma get_credentials (name pw : string) :
  get (credentials name pw) "username" = Some name /\
  get (credentials name pw) "password" = Some pw.
Proof. split; reflexivity. Qed.






(** ** What a run of the service keeps *)

Lemma sorted_snoc {A} (R : A -> A -> Prop) (l : list A) (x : A) :
  StronglySorted R l -> (forall a, In a l -> R a x) ->
  StronglySorted R (l ++ [x]).
Proof.
  intros Hs Hx. apply StronglySorted_app_2.
  - intros a b Ha Hb. apply list_elem_of_In in Ha, Hb.
    destruct Hb as [<- | []]. now apply Hx.
  - exact Hs.
  - repeat constructor.
Qed.

Lemma sorted_same_key {A} (key : A -> Z) (l : list A) (a b : A) :
  StronglySorted (fun x y => key x < key y) l ->
  In a l -> In b l -> key a = key b -> a = b.
Proof.
  induction l as [| h t IH]; intros Hs Ha Hb E; [destruct Ha |].
  apply StronglySorted_inv in Hs. destruct Hs as [Ht Hh].
  rewrite List.Forall_forall in Hh.
  destruct Ha as [<- | Ha], Hb as [<- | Hb].
  - reflexivity.
  - specialize (Hh b Hb). simpl in Hh. lia.
  - specialize (Hh a Ha). simpl in Hh. lia.
  - now apply IH.
Qed.

Lemma NoDup_map_same_key {A B} (key : A -> B) (l : list A) (a b : A) :
  List.NoDup (map key l) -> In a l -> In b l -> key a = key b -> a = b.
Proof.
  induction l as [| h t IH]; simpl; intros Hnd Ha Hb E; [destruct Ha |].
  apply List.NoDup_cons_iff in Hnd. destruct Hnd as [Hh Ht].
  destruct Ha as [<- | Ha], Hb as [<- | Hb].
  - reflexivity.
  - exfalso. apply Hh. rewrite E. now apply in_map.
  - exfalso. apply Hh. rewrite <- E. now apply in_map.
  - now apply IH.
Qed.

Lemma create_user_written {W : Werkzeug} (db db' : database) (salt : string)
    (now : Z) (username email password role : option string)
    (r : result (option Z)) :
  create_user db salt now username email password role = (db', r) ->
  written db db'.
Proof.
  unfold create_user.
  destruct password as [pw |]; [| intros H; injection H as <- _; constructor].
  destruct (insert_user db now username email (generate_password_hash salt pw) role)
    as [e | [d i]] eqn:Hins.
  - destruct e; intros H; injection H as <- _; constructor.
  - intros H. injection H as <- _. eapply written_user. exact Hins.
Qed.

Lemma register_written {W : Werkzeug} (db : database) (salt : string) (now : Z)
    (data : gmap string (option string)) :
  written db (fst (register db salt now data)).
Proof.
  unfold register.
  destruct (negb _); [constructor |].
  destruct (create_user db salt now _ _ _ _) as [db' r] eqn:Hc.
  apply create_user_written in Hc.
  destruct r as [[user_id |] | e]; simpl; [| exact Hc | exact Hc].
  destruct (user_id =? 0); exact Hc.
Qed.

Lemma create_operation_view_written (json_dumps : json -> string) (db : database)
    (now : Z) (operation_type : option string) (data : option json)
    (current_user : user_row) :
  written db (fst (create_operation_view json_dumps db now operation_type data
                     current_user)).
Proof.
  unfold create_operation_view.
  destruct (negb _); [constructor |].
  unfold create_operation.
  destruct (bind_int (u_id current_user)) as [uid | e]; [| constructor].
  simpl. apply written_operation.
Qed.

Lemma step_written {W : Werkzeug} (json_dumps : json -> string) (db : database)
    (c : call) :
  written db (step json_dumps db c).
Proof.
  destruct c; simpl.
  - apply register_written.
  - apply create_operation_view_written.
Qed.

Lemma written_extends (db db' : database) :
  written db db' ->
  exists (us : list user_row) (ops : list operation_row),
    users db' = (users db ++ us)%list /\
    api_operations db' = (api_operations db ++ ops)%list.
Proof.
  intros [| d now u e h role i Hins | now uid ty data].
  - exists [], []. now rewrite !app_nil_r.
  - apply insert_user_inv in Hins.
    destruct Hins as (name & addr & _ & _ & _ & _ & _ & ->). simpl.
    eexists _, []. split; [reflexivity | now rewrite app_nil_r].
  - simpl. eexists [], _. split; [now rewrite app_nil_r | reflexivity].
Qed.

Lemma ids_ok_init : ids_ok init_database.
Proof. repeat split; simpl; try constructor; lia. Qed.

Lemma written_ok (db db' : database) :
  written db db' ->
  store_ok db /\ ids_ok db /\
  Forall (fun op => op_status op = "pending") (api_operations db) ->
  store_ok db' /\ ids_ok db' /\
  Forall (fun op => op_status op = "pending") (api_operations db').
Proof.
  intros [| d now u e h role i Hins | now uid ty data]
         (Hstore & (Hus & Hub & Hos & Hob & Hseq) & Hpending).
  - exact (conj Hstore (conj (conj Hus (conj Hub (conj Hos (conj Hob Hseq))))
                          Hpending)).
  - split; [now apply (store_ok_insert_user db d now u e h role i) |].
    apply insert_user_inv in Hins.
    destruct Hins as (name & addr & _ & _ & _ & _ & _ & ->).
    rewrite List.Forall_forall in Hub.
    destruct Hstore as (_ & _ & Hs).
    split; [| exact Hpending].
    unfold ids_ok. simpl.
    split; [| split; [| exact (conj Hos (conj Hob Hseq))]].
    + apply sorted_snoc; [exact Hus |]. intros a Ha. simpl.
      specialize (Hub a Ha). simpl in Hub. lia.
    + apply Forall_app. split.
      * apply List.Forall_forall. intros a Ha. specialize (Hub a Ha).
        simpl in Hub. lia.
      * constructor; [simpl; lia | constructor].
  - split; [exact Hstore |].
    rewrite List.Forall_forall in Hob.
    split.
    + unfold ids_ok. simpl.
      split; [exact Hus |]. split; [exact Hub |].
      split; [| split; [| lia]].
      * apply sorted_snoc; [exact Hos |]. intros a Ha. simpl.
        specialize (Hob a Ha). simpl in Hob. lia.
      * apply Forall_app. split.
        -- apply List.Forall_forall. intros a Ha. specialize (Hob a Ha).
           simpl in Hob. lia.
        -- constructor; [simpl; lia | constructor].
    + simpl. apply Forall_app. split; [exact Hpending |].
      constructor; [reflexivity | constructor].
Qed.

(** X6.  Whatever registrations and operation postings have been made since
    the database was created, no two users share an id, a username or an
    email, no two operations share an id, and every operation still has the
    status [pending]. *)
Theorem run_keeps_rows_distinct {W : Werkzeug} (json_dumps : json -> string)
    (calls : list call) :
  let db := run json_dumps init_database calls in
  store_ok db /\ ids_ok db /\
  Forall (fun op => op_status op = "pending") (api_operations db) /\
  (forall r1 r2, In r1 (users db) -> In r2 (users db) ->
     u_id r1 = u_id r2 \/ u_username r1 = u_username r2 \/ u_email r1 = u_email r2 ->
     r1 = r2) /\
  (forall o1 o2, In o1 (api_operations db) -> In o2 (api_operations db) ->
     op_id o1 = op_id o2 -> o1 = o2).
Proof.
  intros db.
  assert (store_ok db /\ ids_ok db /\
          Forall (fun op => op_status op = "pending") (api_operations db)) as Hok.
  { subst db. unfold run.
    assert (store_ok init_database /\ ids_ok init_database /\
            Forall (fun op => op_status op = "pending")
              (api_operations init_database)) as H0.
    { split; [apply store_ok_init |]. split; [apply ids_ok_init | constructor]. }
    revert H0. generalize init_database as d.
    induction calls as [| c calls IH]; intros d Hd; simpl; [exact Hd |].
    apply IH. apply (written_ok d); [apply step_written | exact Hd]. }
  destruct Hok as (Hstore & Hids & Hpending).
  split; [exact Hstore |]. split; [exact Hids |]. split; [exact Hpending |].
  destruct Hstore as (Hnu & Hne & _). destruct Hids as (Hus & _ & Hos & _).
  split.
  - intros r1 r2 H1 H2 [E | [E | E]].
    + now apply (sorted_same_key u_id (users db)).
    + now apply (NoDup_map_same_key u_username (users db)).
    + now apply (NoDup_map_same_key u_email (users db)).
  - intros o1 o2 H1 H2 E. now apply (sorted_same_key op_id (api_operations db)).
Qed.

Lemma run_extends {W : Werkzeug} (json_dumps : json -> string) (db : database)
    (calls : list call) :
  exists (us : list user_row) (ops : list operation_row),
    users (run json_dumps db calls) = (users db ++ us)%list /\
    api_operations (run json_dumps db calls) = (api_operations db ++ ops)%list.
Proof.
  unfold run. revert db. induction calls as [| c calls IH]; intros db; simpl.
  - exists [], []. now rewrite !app_nil_r.
  - destruct (IH (step json_dumps db c)) as (us & ops & Hu & Ho).
    destruct (written_extends db _ (step_written json_dumps db c))
      as (us0 & ops0 & Hu0 & Ho0).
    exists (us0 ++ us)%list, (ops0 ++ ops)%list.
    rewrite Hu, Ho, Hu0, Ho0. now rewrite !app_assoc.
Qed.

Lemma run_keeps_lookup {W : Werkzeug} (json_dumps : json -> string) (db : database)
    (calls : list call) (name : string) (user : user_row) :
  get_user_by_username db (PStr name) = Return (Some user) ->
  get_user_by_username (run json_dumps db calls) (PStr name) = Return (Some user).
Proof.
  rewrite !get_user_by_username_text. intros H. injection H as H.
  destruct (run_extends json_dumps db calls) as (us & _ & -> & _).
  now rewrite (find_app_some _ _ us _ H).
Qed.

(** X7.  The service only ever appends: after any further registrations and
    operation postings the rows that were there are still there, unchanged
    and in the same place, so a username that resolved to a row resolves to
    the same row. *)
Theorem run_only_appends {W : Werkzeug} (json_dumps : json -> string)
    (db : database) (calls : list call) :
  (exists (us : list user_row) (ops : list operation_row),
     users (run json_dumps db calls) = (users db ++ us)%list /\
     api_operations (run json_dumps db calls) = (api_operations db ++ ops)%list) /\
  (forall name user,
     get_user_by_username db (PStr name) = Return (Some user) ->
     get_user_by_username (run json_dumps db calls) (PStr name)
       = Return (Some user)).
Proof.
  split; [apply run_extends |].
  intros name user. apply run_keeps_lookup.
Qed.

(** X8.  A token stays good while the service runs on: until it expires, the
    gate admits it with its user's row however many registrations and
    operation postings have happened since the login. *)
Theorem token_survives_later_calls
    {W : Werkzeug} {J : PyJWT} {JL : PyJWTLaws J}
    (SECRET_KEY : string) (json_dumps : json -> string)
    (f : user_row -> response) (db : database) (calls : list call)
    (user : user_row) (issued later : Z) :
  get_user_by_username db (PStr (u_username user)) = Return (Some user) ->
  later < issued + 24 * 3600 ->
  token_required SECRET_KEY f (run json_dumps db calls) later
    (Some ("Bearer " +:+ jwt_encode (token_claims user issued) SECRET_KEY))
  = Return (f user).
Proof.
  intros Hfind Hlive.
  rewrite (gate_resolve SECRET_KEY f _ later _ (token_claims user issued)
             (PStr (u_username user))).
  - now rewrite (run_keeps_lookup json_dumps db calls _ user Hfind).
  - reflexivity.
  - simpl. rewrite strip_bearer_prefixed. now apply issued_token_live.
  - reflexivity.
Qed.

Lemma token_survives_later_calls_alice :
  token_required (J := ref_jwt) "k" (fun u => (JStr (u_username u), 200))
    (run (W := ref_werkzeug) ref_json_dumps alice_db
       [CallRegister "salt" 200
          (<["username" := Some "bob"]> (<["email" := Some "bob@x.com"]>
             (<["password" := Some "hunter2"]> ∅)));
        CallCreateOperation 300 (Some "ping") None alice_row])
    400
    (Some ("Bearer " +:+ jwt_encode (PyJWT := ref_jwt) (token_claims alice_row 150) "k"))
  = Return (JStr "alice", 200).
Proof.
  apply (token_survives_later_calls (W := ref_werkzeug) (J := ref_jwt)
           "k" ref_json_dumps (fun u => (JStr (u_username u), 200)) alice_db _
           alice_row 150 400).
  - reflexivity.
  - lia.
Defined.

(** ** Recording and listing operations *)

Lemma in_sql_limit {A} (n : Z) (l : list A) (x : A) :
  In x (sql_limit n l) -> In x l.
Proof.
  unfold sql_limit. destruct (n <? 0); [trivial |].
  intros H. rewrite <- (firstn_skipn (Z.to_nat n) l).
  apply in_or_app. now left.
Qed.


Lemma sql_limit_firstn {A} (n : Z) (l : list A) :
  0 <= n -> sql_limit n l = firstn (Z.to_nat n) l.
Proof.
  intros H. unfold sql_limit. destruct (Z.ltb_spec n 0); [lia | reflexivity].
Qed.

Lemma get_user_operations_inv (db : database) (user_id : Z) (limit : option Z)
    (ops : list operation_row) :
  get_user_operations db user_id limit = Return ops ->
  is_int64 user_id = true /\ is_int64 (default 10 limit) = true /\
  ops = sql_limit (default 10 limit)
          (order_by_created_at_desc (operations_of db user_id)).
Proof.
  unfold get_user_operations, bind_int. simpl.
  destruct (is_int64 user_id); simpl; [| discriminate].
  destruct (is_int64 (default 10 limit)); simpl; [| discriminate].
  intros H. injection H as <-. repeat split.
Qed.





(** X10.  Whatever the limit, a listing holds only operations of the user
    asked for, each of them a row of the ledger and none of them twice; a
    limit of 0 gives the empty listing. *)
Theorem get_user_operations_only_own (db : database) (user_id : Z)
    (limit : option Z) (ops : list operation_row) :
  get_user_operations db user_id limit = Return ops ->
  Forall (fun op => op_user_id op = user_id /\ In op (api_operations db)) ops /\
  (exists rest, Permutation (ops ++ rest) (operations_of db user_id)) /\
  (limit = Some 0 -> ops = []).
Proof.
  intros H. apply get_user_operations_inv in H. destruct H as (_ & _ & ->).
  split.
  - apply List.Forall_forall. intros op Hop.
    apply in_sql_limit in Hop.
    apply (Permutation_in _ (order_by_perm _)) in Hop.
    unfold operations_of in Hop. apply filter_In in Hop.
    destruct Hop as [Hin Hown]. unfold owned_by in Hown.
    apply Z.eqb_eq in Hown. now split.
  - split.
    + unfold sql_limit. destruct (default 10 limit <? 0).
      * exists []. rewrite app_nil_r. apply order_by_perm.
      * eexists. rewrite firstn_skipn. apply order_by_perm.
    + intros ->. reflexivity.
Qed.

Lemma get_user_operations_only_own_five :
  exists ops,
    get_user_operations five_apart 1 (Some 3) = Return ops /\
    Forall (fun op => op_user_id op = 1 /\ In op (api_operations five_apart)) ops.
Proof.
  eexists. split; [reflexivity |].
  exact (proj1 (get_user_operations_only_own five_apart 1 (Some 3) _ eq_refl)).
Defined.



(** X12.  The profile counts at most 1000 operations: [total_operations] is
    the number of the user's operations or 1000, whichever is smaller, and
    [recent_activity] never exceeds it. *)
Theorem get_user_profile_statistics (timestamp_text isoformat : Z -> string)
    (db : database) (local_now : Z) (current_user : user_row) :
  is_int64 (u_id current_user) = true ->
  exists total recent : Z,
    get_user_profile timestamp_text isoformat db local_now current_user
      = (JObj [("user_info",
                JObj [("id", JInt (u_id current_user));
                      ("username", JStr (u_username current_user));
                      ("email", JStr (u_email current_user));
                      ("role", json_of_text (u_role current_user));
                      ("member_since",
                       JStr (timestamp_text (u_created_at current_user)))]);
               ("statistics",
                JObj [("total_operations", JInt total);
                      ("recent_activity", JInt recent)])], 200) /\
    total = Z.min 1000 (Z.of_nat (length (operations_of db (u_id current_user)))) /\
    0 <= recent <= total.
Proof.
  intros Hu. unfold get_user_profile.
  rewrite get_user_operations_in_range; [| exact Hu | reflexivity].
  eexists _, _. split; [reflexivity |].
  split.
  - rewrite sql_limit_firstn by lia.
    rewrite length_firstn, (Permutation_length (order_by_perm _)). lia.
  - split; [lia |]. apply inj_le. apply List.filter_length_le.
Qed.

Lemma get_user_profile_statistics_five :
  exists total recent : Z,
    get_user_profile ref_timestamp_text ref_isoformat five_apart 700000 alice_row
      = (JObj [("user_info",
                JObj [("id", JInt 1); ("username", JStr "alice");
                      ("email", JStr "alice@x.com"); ("role", JStr "user");
                      ("member_since", JStr (ref_timestamp_text 100))]);
               ("statistics",
                JObj [("total_operations", JInt total);
                      ("recent_activity", JInt recent)])], 200) /\
    total = 5 /\ 0 <= recent <= total.
Proof.
  destruct (get_user_profile_statistics ref_timestamp_text ref_isoformat five_apart
              700000 alice_row eq_refl) as (total & recent & Hp & Ht & Hr).
  exists total, recent. split; [exact Hp |]. split; [| exact Hr].
  rewrite Ht. reflexivity.
Defined.

(** ** More on the token gate *)

(** X13.  The gate calls the protected view at most once and only with a row
    that is in the users table: for a given header either the answer is the
    same for every view, or there is one stored row that every view is
    applied to. *)
Theorem token_required_admits_stored_user {J : PyJWT}
    (SECRET_KEY : string) (db : database) (now : Z) (header : option string) :
  (forall f g,
     token_required SECRET_KEY f db now header
       = token_required SECRET_KEY g db now header) \/
  (exists user,
     In user (users db) /\
     forall f, token_required SECRET_KEY f db now header = Return (f user)).
Proof.
  unfold token_required.
  destruct (negb (truthy header)); [now left |].
  destruct (jwt_decode _ SECRET_KEY now) as [data | |]; [| now left | now left].
  destruct (data !! "username") as [name |]; [| now left].
  destruct (get_user_by_username db name) as [[user |] | e] eqn:Hfind;
    simpl; [| now left | now left].
  right. exists user. split; [| reflexivity].
  now apply (get_user_by_username_in db name).
Qed.

(** X14.  The [Bearer ] prefix is optional: a non-empty header that does not
    start with it is taken as the token itself and gets the answer the same
    token gets behind the prefix. *)
Theorem token_required_bearer_optional {J : PyJWT}
    (SECRET_KEY : string) (f : user_row -> response) (db : database) (now : Z)
    (token : string) :
  token <> "" ->
  String.prefix "Bearer " token = false ->
  token_required SECRET_KEY f db now (Some token)
    = token_required SECRET_KEY f db now (Some ("Bearer " +:+ token)).
Proof.
  intros Hne Hprefix. unfold token_required.
  assert (truthy (Some token) = true) as ->.
  { apply truthy_some. now exists token. }
  rewrite truthy_bearer. simpl default.
  rewrite strip_bearer_prefixed. unfold strip_bearer. now rewrite Hprefix.
Qed.

Lemma token_required_bearer_optional_alice :
  token_required (J := ref_jwt) "k" (fun u => (JStr (u_username u), 200)) alice_db 200
    (Some (jwt_encode (PyJWT := ref_jwt) (token_claims alice_row 150) "k"))
  = token_required (J := ref_jwt) "k" (fun u => (JStr (u_username u), 200)) alice_db 200
    (Some ("Bearer " +:+ jwt_encode (PyJWT := ref_jwt) (token_claims alice_row 150) "k")).
Proof.
  apply (token_required_bearer_optional (J := ref_jwt)).
  - discriminate.
  - reflexivity.
Defined.
